(** * The CSS selector builder of 05-objects-tasks.js

    A shallow embedding of [cssSelectorBuilder] and of the objects it
    builds, with the JavaScript heap made explicit: every method receives
    the reference [this], reads the object stored there, and (unless it
    throws) allocates the copy [{ ...this }], writes one property of the
    copy and returns the reference of the copy. *)

From stdpp Require Import base option list strings.

(** ** Objects

    Every object the builder hands out is a spread copy of the object the
    method was called on, so it owns the properties of [cssSelectorBuilder]
    itself (the two messages [err1], [err2] and the eight methods, never
    assigned to) and up to seven string properties written by the methods:
    [el], [aidi], [cl], [att], [psc], [pse] and [item].  A property that was
    never written reads as [undefined], which is [None] here. *)
Record SelectorState : Type := mkState {
  el : option string;
  aidi : option string;
  cl : option string;
  att : option string;
  psc : option string;
  pse : option string;
  item : option string
}.

(** The names of the seven properties, for reads and writes by name. *)
Inductive prop : Type := El | Aidi | Cl | Att | Psc | Pse | Item.

#[global] Instance prop_eq_dec : EqDecision prop.
Proof. solve_decision. Defined.

Definition get (p : prop) (o : SelectorState) : option string :=
  match p with
  | El => el o | Aidi => aidi o | Cl => cl o | Att => att o
  | Psc => psc o | Pse => pse o | Item => item o
  end.

(** [o.p = v] on an object value. *)
Definition set (p : prop) (v : string) (o : SelectorState) : SelectorState :=
  match p with
  | El => mkState (Some v) (aidi o) (cl o) (att o) (psc o) (pse o) (item o)
  | Aidi => mkState (el o) (Some v) (cl o) (att o) (psc o) (pse o) (item o)
  | Cl => mkState (el o) (aidi o) (Some v) (att o) (psc o) (pse o) (item o)
  | Att => mkState (el o) (aidi o) (cl o) (Some v) (psc o) (pse o) (item o)
  | Psc => mkState (el o) (aidi o) (cl o) (att o) (Some v) (pse o) (item o)
  | Pse => mkState (el o) (aidi o) (cl o) (att o) (psc o) (Some v) (item o)
  | Item => mkState (el o) (aidi o) (cl o) (att o) (psc o) (pse o) (Some v)
  end.

(** The object literal [cssSelectorBuilder]: none of the seven written
    properties exists yet. *)
Definition builder : SelectorState :=
  mkState None None None None None None None.

(** JavaScript's ToBoolean on a property read: [undefined] and the empty
    string are falsy, every other string is truthy. *)
Definition truthy (v : option string) : bool :=
  match v with
  | Some (String _ _) => true
  | Some EmptyString => false
  | None => false
  end.

(** JavaScript's ToString on a property read, as [+=] and template
    literals apply it. *)
Definition toStr (v : option string) : string :=
  match v with
  | Some s => s
  | None => "undefined"
  end.

(** ** Errors

    Both failures are [throw new Error(msg)]; they differ by the message,
    [this.err1] or [this.err2]. *)
Inductive error : Type :=
  | DuplicateSelectorPartError
  | OutOfOrderSelectorPartError.

Definition message (e : error) : string :=
  match e with
  | DuplicateSelectorPartError =>
      "Element, id and pseudo-element should not occur more then one time inside the selector"
  | OutOfOrderSelectorPartError =>
      "Selector parts should be arranged in the following order: element, id, class, attribute, pseudo-class, pseudo-element"
  end.

(** ** The heap and the monad of method bodies

    References are positions in the list of allocated objects.  A method
    body either returns a value, or throws; both leave a heap behind.
    [Stuck] stands for a read through a reference that was never
    allocated, which no JavaScript program can hold. *)
Abbreviation loc := nat (only parsing).
Abbreviation heap := (list SelectorState) (only parsing).

Inductive outcome (A : Type) : Type :=
  | Returns (a : A) (h : heap)
  | Throws (e : error) (h : heap)
  | Stuck.
Arguments Returns {A} a h.
Arguments Throws {A} e h.
Arguments Stuck {A}.

Definition M (A : Type) : Type := heap → outcome A.

#[global] Instance M_ret : MRet M := λ A a h, Returns a h.
#[global] Instance M_bind : MBind M := λ A B f m h,
  match m h with
  | Returns a h' => f a h'
  | Throws e h' => Throws e h'
  | Stuck => Stuck
  end.

(** [throw new Error(...)] *)
Definition throw {A : Type} (e : error) : M A := λ h, Throws e h.

(** Reading the object behind a reference. *)
Definition load (l : loc) : M SelectorState := λ h,
  match h !! l with
  | Some o => Returns o h
  | None => Stuck
  end.

(** The object spread [{ ...src }]: a new object with the properties of
    the one at [src]. *)
Definition spread (src : loc) : M loc := λ h,
  match h !! src with
  | Some o => Returns (List.length h) (h ++ [o])
  | None => Stuck
  end.

(** The assignment [l.p = v]. *)
Definition store (l : loc) (p : prop) (v : string) : M unit := λ h,
  match h !! l with
  | Some o => Returns tt (<[l := set p v o]> h)
  | None => Stuck
  end.

(** ** The methods of [cssSelectorBuilder] *)
Module cssSelectorBuilder.

Definition err1 : error := DuplicateSelectorPartError.
Definition err2 : error := OutOfOrderSelectorPartError.

Definition element (this : loc) (value : string) : M loc :=
  t ← load this;
  if truthy (el t) then throw err1 else
  if truthy (aidi t) then throw err2 else
  items ← spread this;
  i ← load items;
  (if negb (truthy (el i)) then store items El value
   else store items El (toStr (el i) +:+ value));;
  mret items.

Definition id (this : loc) (value : string) : M loc :=
  t ← load this;
  if truthy (aidi t) then throw err1 else
  if truthy (cl t) || truthy (pse t) then throw err2 else
  items ← spread this;
  i ← load items;
  (if negb (truthy (aidi i)) then store items Aidi ("#" +:+ value)
   else store items Aidi (toStr (aidi i) +:+ ("#" +:+ value)));;
  mret items.

Definition class (this : loc) (value : string) : M loc :=
  t ← load this;
  if truthy (att t) then throw err2 else
  items ← spread this;
  i ← load items;
  (if negb (truthy (cl i)) then store items Cl ("." +:+ value)
   else store items Cl (toStr (cl i) +:+ ("." +:+ value)));;
  mret items.

Definition attr (this : loc) (value : string) : M loc :=
  t ← load this;
  if truthy (psc t) then throw err2 else
  items ← spread this;
  i ← load items;
  (if negb (truthy (att i)) then store items Att ("[" +:+ value +:+ "]")
   else store items Att (toStr (att i) +:+ ("[" +:+ value +:+ "]")));;
  mret items.

Definition pseudoClass (this : loc) (value : string) : M loc :=
  t ← load this;
  if truthy (pse t) then throw err2 else
  items ← spread this;
  i ← load items;
  (if negb (truthy (psc i)) then store items Psc (":" +:+ value)
   else store items Psc (toStr (psc i) +:+ (":" +:+ value)));;
  mret items.

Definition pseudoElement (this : loc) (value : string) : M loc :=
  t ← load this;
  if truthy (pse t) then throw err1 else
  items ← spread this;
  i ← load items;
  (if negb (truthy (pse i)) then store items Pse ("::" +:+ value)
   else store items Pse (toStr (pse i) +:+ ("::" +:+ value)));;
  mret items.

Definition stringify (this : loc) : M string :=
  t ← load this;
  if truthy (item t) then mret (toStr (item t)) else
  let res := "" in
  let res := if truthy (el t) then res +:+ toStr (el t) else res in
  let res := if truthy (aidi t) then res +:+ toStr (aidi t) else res in
  let res := if truthy (cl t) then res +:+ toStr (cl t) else res in
  let res := if truthy (att t) then res +:+ toStr (att t) else res in
  let res := if truthy (psc t) then res +:+ toStr (psc t) else res in
  let res := if truthy (pse t) then res +:+ toStr (pse t) else res in
  mret res.

Definition combine (this : loc) (selector1 : loc) (combinator : string)
    (selector2 : loc) : M loc :=
  items ← spread this;
  s1 ← stringify selector1;
  s2 ← stringify selector2;
  let item' := s1 +:+ " " +:+ combinator +:+ " " +:+ s2 in
  i ← load items;
  (if negb (truthy (item i)) then store items Item item'
   else store items Item (toStr (item i) +:+ item'));;
  mret items.

End cssSelectorBuilder.

(** The program starts with one object, [cssSelectorBuilder] itself. *)
Definition entry : loc := 0.
Definition heap0 : heap := [builder].

Import cssSelectorBuilder.

(** ** Vocabulary of the specification *)

(** The six kinds of fragment, in the canonical order of a compound
    selector, and the append operation of each. *)
Inductive kind : Type :=
  | Element | Id | Class | Attr | PseudoClass | PseudoElement.

Definition append (k : kind) : loc → string → M loc :=
  match k with
  | Element => element
  | Id => id
  | Class => class
  | Attr => attr
  | PseudoClass => pseudoClass
  | PseudoElement => pseudoElement
  end.

(** The property that holds the fragments of a kind. *)
Definition part_of (k : kind) : prop :=
  match k with
  | Element => El
  | Id => Aidi
  | Class => Cl
  | Attr => Att
  | PseudoClass => Psc
  | PseudoElement => Pse
  end.

(** A value with the syntactic marker of its kind. *)
Definition marked (k : kind) (value : string) : string :=
  match k with
  | Element => value
  | Id => "#" +:+ value
  | Class => "." +:+ value
  | Attr => "[" +:+ value +:+ "]"
  | PseudoClass => ":" +:+ value
  | PseudoElement => "::" +:+ value
  end.

Definition canonical_order : list kind :=
  [Element; Id; Class; Attr; PseudoClass; PseudoElement].

(** A fragment part is present when the guards of the source see it: the
    property reads as a truthy value, that is, it was written and holds
    a non-empty string. *)
Definition present (k : kind) (s : SelectorState) : bool :=
  truthy (get (part_of k) s).

(** A precomputed combination text is set under the same reading. *)
Definition combined (s : SelectorState) : bool := truthy (item s).

(** The texts of the parts that are present, in canonical order, and
    their concatenation without separator. *)
Definition present_parts (s : SelectorState) : list string :=
  (λ k, toStr (get (part_of k) s)) <$> filter (λ k, present k s) canonical_order.

Definition concat_all (l : list string) : string := foldr String.append "" l.

(** What a part holds after [frag] was appended to it. *)
Definition appended (old : option string) (frag : string) : string :=
  if truthy old then toStr old +:+ frag else frag.

(** The text [combine] computes from two rendered operands. *)
Definition joined (left combinator right : string) : string :=
  left +:+ " " +:+ combinator +:+ " " +:+ right.

(** The text of a part as [stringify] adds it, and the text [stringify]
    returns for an object, as a function of the object alone. *)
Definition part (v : option string) : string :=
  if truthy v then toStr v else "".

Definition render (s : SelectorState) : string :=
  if truthy (item s) then toStr (item s)
  else part (el s) +:+ part (aidi s) +:+ part (cl s) +:+ part (att s)
       +:+ part (psc s) +:+ part (pse s).

(** The checks an append operation makes before it copies anything. *)
Definition guard (k : kind) (s : SelectorState) : option error :=
  match k with
  | Element =>
      if truthy (el s) then Some DuplicateSelectorPartError
      else if truthy (aidi s) then Some OutOfOrderSelectorPartError
      else None
  | Id =>
      if truthy (aidi s) then Some DuplicateSelectorPartError
      else if truthy (cl s) || truthy (pse s)
      then Some OutOfOrderSelectorPartError
      else None
  | Class => if truthy (att s) then Some OutOfOrderSelectorPartError else None
  | Attr => if truthy (psc s) then Some OutOfOrderSelectorPartError else None
  | PseudoClass =>
      if truthy (pse s) then Some OutOfOrderSelectorPartError else None
  | PseudoElement =>
      if truthy (pse s) then Some DuplicateSelectorPartError else None
  end.

(** A chain of append calls, each on the object the previous one
    returned: [this.k1(v1).k2(v2)...]. *)
Fixpoint appends (ops : list (kind * string)) (this : loc) : M loc :=
  match ops with
  | [] => mret this
  | (k, value) :: ops => r ← append k this value; appends ops r
  end.

(** What the caller observes of a run: the value returned, or the error
    thrown. *)
Definition returned {A : Type} (o : outcome A) : option A :=
  match o with
  | Returns a _ => Some a
  | _ => None
  end.

Definition thrown {A : Type} (o : outcome A) : option error :=
  match o with
  | Throws e _ => Some e
  | _ => None
  end.

(** ** Vocabulary for chains of calls *)

#[global] Instance kind_eq_dec : EqDecision kind.
Proof. solve_decision. Defined.

(** The place of a kind in [element#id.class[attr]:pseudoClass::pseudoElement],
    and the kinds the header comment of the builder marks as "can be
    several occurrences". *)
Definition rank (k : kind) : nat :=
  match k with
  | Element => 0
  | Id => 1
  | Class => 2
  | Attr => 3
  | PseudoClass => 4
  | PseudoElement => 5
  end.

Definition repeatable (k : kind) : bool :=
  match k with
  | Class | Attr | PseudoClass => true
  | Element | Id | PseudoElement => false
  end.

(** The least rank the call after one of kind [k] may have in a selector
    written in canonical order. *)
Definition next_rank (k : kind) : nat :=
  if repeatable k then rank k else S (rank k).

(** A chain written in canonical order, with ranks from [n] on: kinds
    never go back, and only the repeatable ones occur more than once. *)
Fixpoint well_ordered (n : nat) (ops : list (kind * string)) : bool :=
  match ops with
  | [] => true
  | (k, _) :: ops => (n <=? rank k) && well_ordered (next_rank k) ops
  end.

(** The marked values of a chain, in call order; those of one kind; and
    the chain regrouped by kind, kinds in canonical order, calls of one
    kind in call order. *)
Definition written (ops : list (kind * string)) : string :=
  concat_all ((λ op, marked op.1 op.2) <$> ops).

Definition texts (k : kind) (ops : list (kind * string)) : string :=
  written (filter (λ op, op.1 = k) ops).

Definition grouped (ops : list (kind * string)) : string :=
  concat_all ((λ k, texts k ops) <$> canonical_order).

(** The object a returning append of kind [k] allocates, from the
    receiver [s]. *)
Definition after_append (k : kind) (value : string) (s : SelectorState) :
    SelectorState :=
  set (part_of k) (appended (get (part_of k) s) (marked k value)) s.

(** No part of a kind of rank [n] or more is present, except, when the
    kind of rank [n] is repeatable, that one. *)
Definition built_below (n : nat) (s : SelectorState) : Prop :=
  combined s = false
  ∧ ∀ k, n ≤ rank k → present k s = true → rank k = n ∧ repeatable k = true.

(** Every property but [el] is either unset or a non-empty string. *)
Definition tidy (s : SelectorState) : Prop :=
  ∀ p, p ≠ El → get p s = None ∨ truthy (get p s) = true.

(** ** Strings *)

Lemma append_nil_l (s : string) : "" +:+ s = s.
Proof. reflexivity. Qed.

Lemma append_nil_r (s : string) : s +:+ "" = s.
Proof.
  induction s as [|c s IH]; [reflexivity|].
  change (String c (s +:+ "") = String c s). by rewrite IH.
Qed.

Lemma append_assoc (s1 s2 s3 : string) : (s1 +:+ s2) +:+ s3 = s1 +:+ (s2 +:+ s3).
Proof.
  induction s1 as [|c s1 IH]; [reflexivity|].
  change (String c ((s1 +:+ s2) +:+ s3) = String c (s1 +:+ (s2 +:+ s3))).
  by rewrite IH.
Qed.

Lemma truthy_joined (l c r : string) : truthy (Some (joined l c r)) = true.
Proof. unfold joined. destruct l; reflexivity. Qed.

Lemma truthy_appended (old : option string) (frag : string) :
  truthy (Some frag) = true → truthy (Some (appended old frag)) = true.
Proof.
  unfold appended. destruct old as [[|c o]|]; simpl; try done.
Qed.

(** ** Running the primitives *)

Section primitives.
Context (h : heap) (this : loc) (s : SelectorState).
Hypothesis Hthis : h !! this = Some s.

Lemma load_run : load this h = Returns s h.
Proof. unfold load. by rewrite Hthis. Qed.

Lemma spread_run : spread this h = Returns (length h) (h ++ [s]).
Proof. unfold spread. by rewrite Hthis. Qed.

Lemma load_copy (o : SelectorState) :
  load (length h) (h ++ [o]) = Returns o (h ++ [o]).
Proof. unfold load. by rewrite list_lookup_middle. Qed.

Lemma store_copy (o : SelectorState) (p : prop) (v : string) :
  store (length h) p v (h ++ [o]) = Returns tt (h ++ [set p v o]).
Proof.
  unfold store. rewrite list_lookup_middle by done.
  replace (length h) with (length h + 0) at 1 by lia.
  by rewrite insert_app_r.
Qed.

(** The copy sits behind a reference nothing held before, and the
    objects allocated before are where they were. *)
Lemma copy_fresh : h !! length h = None.
Proof. by apply lookup_ge_None. Qed.

Lemma copy_frame (o : SelectorState) (l : loc) (x : SelectorState) :
  h !! l = Some x → (h ++ [o]) !! l = Some x.
Proof. intros Hl. rewrite lookup_app_l; [done|]. by eapply lookup_lt_Some. Qed.
End primitives.

(** ** Running the methods *)

Ltac run_method Hthis :=
  unfold mbind, M_bind, mret, M_ret, throw;
  rewrite (load_run _ _ _ Hthis);
  repeat match goal with
    | |- context [truthy ?v] => destruct (truthy v) eqn:?; simpl; try done
    end;
  rewrite ?(spread_run _ _ _ Hthis), ?load_copy; simpl;
  repeat match goal with
    | H : truthy ?v = _ |- context [truthy ?v] => rewrite H; simpl
    end;
  rewrite ?store_copy; try done.

Section methods.
Context (h : heap) (this : loc) (s : SelectorState).
Hypothesis Hthis : h !! this = Some s.

Lemma element_run (value : string) :
  element this value h =
    if truthy (el s) then Throws DuplicateSelectorPartError h
    else if truthy (aidi s) then Throws OutOfOrderSelectorPartError h
    else Returns (length h) (h ++ [set El value s]).
Proof. unfold element, err1, err2. run_method Hthis. Qed.

Lemma id_run (value : string) :
  id this value h =
    if truthy (aidi s) then Throws DuplicateSelectorPartError h
    else if truthy (cl s) || truthy (pse s)
    then Throws OutOfOrderSelectorPartError h
    else Returns (length h) (h ++ [set Aidi ("#" +:+ value) s]).
Proof. unfold id, err1, err2. run_method Hthis. Qed.

Lemma class_run (value : string) :
  class this value h =
    if truthy (att s) then Throws OutOfOrderSelectorPartError h
    else Returns (length h)
           (h ++ [set Cl (appended (cl s) ("." +:+ value)) s]).
Proof. unfold class, err2, appended. run_method Hthis. Qed.

Lemma attr_run (value : string) :
  attr this value h =
    if truthy (psc s) then Throws OutOfOrderSelectorPartError h
    else Returns (length h)
           (h ++ [set Att (appended (att s) ("[" +:+ value +:+ "]")) s]).
Proof. unfold attr, err2, appended. run_method Hthis. Qed.

Lemma pseudoClass_run (value : string) :
  pseudoClass this value h =
    if truthy (pse s) then Throws OutOfOrderSelectorPartError h
    else Returns (length h)
           (h ++ [set Psc (appended (psc s) (":" +:+ value)) s]).
Proof. unfold pseudoClass, err2, appended. run_method Hthis. Qed.

Lemma pseudoElement_run (value : string) :
  pseudoElement this value h =
    if truthy (pse s) then Throws DuplicateSelectorPartError h
    else Returns (length h) (h ++ [set Pse ("::" +:+ value) s]).
Proof. unfold pseudoElement, err1. run_method Hthis. Qed.
End methods.

(** [stringify] reads one object and leaves the heap alone. *)
Lemma res_step (res : string) (v : option string) :
  (if truthy v then res +:+ toStr v else res) = res +:+ part v.
Proof. unfold part. destruct (truthy v); [done|]. by rewrite append_nil_r. Qed.

Lemma stringify_run (h : heap) (this : loc) (s : SelectorState) :
  h !! this = Some s → stringify this h = Returns (render s) h.
Proof.
  intros Hthis. unfold stringify, render, mbind, M_bind, mret, M_ret.
  rewrite (load_run _ _ _ Hthis).
  destruct (truthy (item s)); [done|]. cbv zeta.
  rewrite !res_step, append_nil_l, !append_assoc. done.
Qed.

Lemma concat_present_parts (s : SelectorState) :
  concat_all (present_parts s)
  = part (el s) +:+ part (aidi s) +:+ part (cl s) +:+ part (att s)
    +:+ part (psc s) +:+ part (pse s).
Proof.
  unfold present_parts, present, canonical_order, part.
  rewrite <- (append_nil_r (if truthy (pse s) then _ else _)).
  repeat (rewrite filter_cons; simpl;
          match goal with |- context [truthy ?v] => destruct (truthy v) end;
          simpl; rewrite ?append_nil_l).
  all: done.
Qed.

Lemma combine_run (h : heap) (this selector1 selector2 : loc)
    (s s1 s2 : SelectorState) (combinator : string) :
  h !! this = Some s → h !! selector1 = Some s1 → h !! selector2 = Some s2 →
  combine this selector1 combinator selector2 h =
    Returns (length h)
      (h ++ [set Item (appended (item s)
                         (joined (render s1) combinator (render s2))) s]).
Proof.
  intros Hthis H1 H2. unfold combine, mbind, M_bind, mret, M_ret.
  rewrite (spread_run _ _ _ Hthis).
  rewrite (stringify_run _ _ s1) by by apply copy_frame.
  rewrite (stringify_run _ _ s2) by by apply copy_frame.
  rewrite load_copy. unfold appended, joined.
  destruct (truthy (item s)); simpl; by rewrite store_copy.
Qed.

(** All six append operations at once: the guard decides, and a call that
    passes it allocates one object, the copy of the receiver with the
    marked value appended to the part of its kind. *)
Lemma append_run (h : heap) (this : loc) (s : SelectorState)
    (k : kind) (value : string) :
  h !! this = Some s →
  append k this value h =
    match guard k s with
    | Some e => Throws e h
    | None =>
        Returns (length h)
          (h ++ [set (part_of k)
                   (appended (get (part_of k) s) (marked k value)) s])
    end.
Proof.
  intros Hthis. destruct k; simpl.
  - rewrite (element_run _ _ _ Hthis). unfold appended.
    by destruct (truthy (el s)), (truthy (aidi s)).
  - rewrite (id_run _ _ _ Hthis). unfold appended.
    by destruct (truthy (aidi s)), (truthy (cl s) || truthy (pse s)).
  - rewrite (class_run _ _ _ Hthis). by destruct (truthy (att s)).
  - rewrite (attr_run _ _ _ Hthis). by destruct (truthy (psc s)).
  - rewrite (pseudoClass_run _ _ _ Hthis). by destruct (truthy (pse s)).
  - rewrite (pseudoElement_run _ _ _ Hthis). unfold appended.
    by destruct (truthy (pse s)).
Qed.

Lemma get_set_eq (p : prop) (v : string) (s : SelectorState) :
  get p (set p v s) = Some v.
Proof. by destruct p. Qed.

Lemma get_set_ne (p q : prop) (v : string) (s : SelectorState) :
  q ≠ p → get q (set p v s) = get q s.
Proof. by destruct p, q. Qed.

Lemma part_of_not_item (k : kind) : part_of k ≠ Item.
Proof. by destruct k. Qed.

(** A call that returns gives the reference of one new object; every
    object allocated before is untouched. *)
Lemma append_returns (h h' : heap) (this r : loc) (s : SelectorState)
    (k : kind) (value : string) :
  h !! this = Some s → append k this value h = Returns r h' →
  guard k s = None ∧ r = length h ∧
  h' = h ++ [set (part_of k)
               (appended (get (part_of k) s) (marked k value)) s].
Proof.
  intros Hthis. rewrite (append_run _ _ _ _ _ Hthis).
  destruct (guard k s); [done|]. by intros [= <- <-].
Qed.

Lemma append_throws (h h' : heap) (this : loc) (s : SelectorState)
    (k : kind) (value : string) (e : error) :
  h !! this = Some s → append k this value h = Throws e h' →
  guard k s = Some e ∧ h' = h.
Proof.
  intros Hthis. rewrite (append_run _ _ _ _ _ Hthis).
  destruct (guard k s); [|done]. by intros [= <- <-].
Qed.

(** ** Rendering *)

(** C10: [stringify()] on the initial builder object, before any append
    or combine, returns the empty string: it neither throws nor returns a
    placeholder, and allocates nothing. *)
Theorem stringify_initial : stringify entry heap0 = Returns "" heap0.
Proof. reflexivity. Qed.

(** C1: on every object without a precomputed combination text,
    [stringify()] returns the concatenation, in the canonical order
    element, id, class, attribute, pseudo-class, pseudo-element, of
    exactly the parts that are present, with nothing between them; every
    append that returns has stored its value with the marker of its kind
    after what the part held before; and
    [id('main').class('container').class('editable').stringify()] is
    ['#main.container.editable']. *)
Theorem stringify_canonical_order (h : heap) (this : loc) (s : SelectorState) :
  h !! this = Some s → combined s = false →
  stringify this h = Returns (concat_all (present_parts s)) h
  ∧ (∀ k value r h', append k this value h = Returns r h' →
       ∃ s', h' !! r = Some s'
         ∧ get (part_of k) s'
           = Some (if present k s then toStr (get (part_of k) s) +:+ marked k value
                   else marked k value))
  ∧ returned ((a ← id entry "main"; b ← class a "container";
               c ← class b "editable"; stringify c) heap0)
    = Some "#main.container.editable".
Proof.
  intros Hthis Hitem. split; [|split; [|reflexivity]].
  - rewrite (stringify_run _ _ _ Hthis), concat_present_parts.
    unfold render. unfold combined in Hitem. by rewrite Hitem.
  - intros k value r h' Hrun.
    destruct (append_returns _ _ _ _ _ _ _ Hthis Hrun) as (_ & -> & ->).
    eexists. split; [by apply list_lookup_middle|].
    by rewrite get_set_eq.
Qed.

Lemma stringify_canonical_order_witness :
  let s := mkState (Some "a") None (Some ".b.c") None (Some ":hover") None None in
  [builder; s] !! 1 = Some s ∧ combined s = false
  ∧ stringify 1 [builder; s] = Returns "a.b.c:hover" [builder; s].
Proof.
  intros s. split; [reflexivity|]. split; [reflexivity|].
  exact (proj1 (stringify_canonical_order [builder; s] 1 s eq_refl eq_refl)).
Defined.

(** ** The uniqueness check *)

(** A second element after [element('')]: the element part was written,
    it holds the empty string, and the second call is not refused; it
    returns a new object. *)
Lemma duplicate_element_counterexample :
  let s := mkState (Some "") None None None None None None in
  element entry "" heap0 = Returns 1 [builder; s]
  ∧ el s = Some ""
  ∧ element 1 "span" [builder; s]
    = Returns 2 [builder; s; set El "span" s]
  ∧ thrown (element 1 "span" [builder; s]) = None.
Proof. repeat split. Qed.

(** C2 (amended): appending an element when the element part holds a
    non-empty name, an id when an id part is present, or a pseudo-element
    when a pseudo-element part is present throws the duplicate error, and
    the heap the throw leaves is the heap of the call: the check comes
    before the copy, nothing is allocated and no object gains a fragment.
    For [id] and [pseudoElement] it is the same to say that the part is
    set: on the objects the builder makes, where every part but the
    element part is unset or non-empty, a part that is set is present. *)
Theorem duplicate_part_rejected (h : heap) (this : loc) (s : SelectorState)
    (value : string) :
  h !! this = Some s →
  (∀ name, el s = Some name → name ≠ "" →
     element this value h = Throws DuplicateSelectorPartError h)
  ∧ (present Id s = true →
     id this value h = Throws DuplicateSelectorPartError h)
  ∧ (present PseudoElement s = true →
     pseudoElement this value h = Throws DuplicateSelectorPartError h)
  ∧ (tidy s → is_Some (aidi s) →
     id this value h = Throws DuplicateSelectorPartError h)
  ∧ (tidy s → is_Some (pse s) →
     pseudoElement this value h = Throws DuplicateSelectorPartError h).
Proof.
  intros Hthis. unfold present; simpl.
  rewrite (element_run _ _ _ Hthis), (id_run _ _ _ Hthis),
    (pseudoElement_run _ _ _ Hthis).
  split; [|split; [|split; [|split]]].
  - intros name Hel Hname. rewrite Hel. by destruct name.
  - by intros ->.
  - by intros ->.
  - intros Hs [v Hv]. destruct (Hs Aidi ltac:(done)) as [Hn | Ht]; simpl in *.
    + congruence.
    + by rewrite Ht.
  - intros Hs [v Hv]. destruct (Hs Pse ltac:(done)) as [Hn | Ht]; simpl in *.
    + congruence.
    + by rewrite Ht.
Qed.

Lemma duplicate_part_rejected_witness :
  let s := mkState (Some "a") (Some "#i") None None None (Some "::p") None in
  let h := [builder; s] in
  h !! 1 = Some s
  ∧ el s = Some "a" ∧ "a" ≠ ""
  ∧ present Id s = true ∧ present PseudoElement s = true
  ∧ tidy s ∧ is_Some (aidi s) ∧ is_Some (pse s)
  ∧ element 1 "b" h = Throws DuplicateSelectorPartError h
  ∧ id 1 "b" h = Throws DuplicateSelectorPartError h
  ∧ pseudoElement 1 "b" h = Throws DuplicateSelectorPartError h.
Proof.
  intros s h.
  assert (Hs : tidy s).
  { intros p Hp. destruct p; simpl; auto. }
  destruct (duplicate_part_rejected h 1 s "b" eq_refl)
    as (He & Hi & Hp & Hi' & Hp').
  split; [reflexivity|]. split; [reflexivity|]. split; [discriminate|].
  split; [reflexivity|]. split; [reflexivity|]. split; [exact Hs|].
  split; [by eexists|]. split; [by eexists|].
  split; [exact (He "a" eq_refl ltac:(discriminate))|].
  split; [exact (Hi eq_refl)|exact (Hp eq_refl)].
Defined.

(** The boundary of the check: it reads the element part by its truth
    value, so the part written by [element('')], the empty string, is not
    seen as present and a following [element('span')] returns. *)
Example element_after_empty_name :
  returned ((a ← element entry ""; b ← element a "span"; stringify b) heap0)
  = Some "span".
Proof. reflexivity. Qed.

(** A second element name on ['div'] alone: the claim of a silent
    concatenation into ['divspan'] fails, the call throws. *)
Lemma second_element_counterexample :
  let s := mkState (Some "div") None None None None None None in
  element entry "div" heap0 = Returns 1 [builder; s]
  ∧ element 1 "span" [builder; s]
    = Throws DuplicateSelectorPartError [builder; s]
  ∧ returned (element 1 "span" [builder; s]) = None.
Proof. repeat split. Qed.

(** C3 (amended): a second element name on an object whose element part
    holds a non-empty name throws the duplicate error, whatever other
    parts the object has or lacks (so also when no id, class or other
    part is present, and also when an id part is), and nothing is ever
    concatenated onto an element part: whenever [element] returns, the
    element part of the receiver was unset or the empty string, and the
    element part of the new object is exactly the name given. *)
Theorem second_element_rejected (h : heap) (this : loc) (s : SelectorState)
    (value : string) :
  h !! this = Some s →
  (∀ name, el s = Some name → name ≠ "" →
     element this value h = Throws DuplicateSelectorPartError h)
  ∧ (∀ r h', element this value h = Returns r h' →
       (el s = None ∨ el s = Some "")
       ∧ ∃ s', h' !! r = Some s' ∧ el s' = Some value).
Proof.
  intros Hthis. rewrite (element_run _ _ _ Hthis). split.
  - intros name Hel Hname. rewrite Hel. by destruct name.
  - intros r h'. destruct (el s) as [[|c name]|] eqn:Hel; simpl; [|done|].
    + destruct (truthy (aidi s)); [done|]. intros [= <- <-].
      split; [by right|]. eexists. split; [by apply list_lookup_middle|done].
    + destruct (truthy (aidi s)); [done|]. intros [= <- <-].
      split; [by left|]. eexists. split; [by apply list_lookup_middle|done].
Qed.

Lemma second_element_rejected_witness :
  let s := mkState (Some "div") None None None None None None in
  let t := mkState (Some "a") (Some "#x") None None None None None in
  [builder; s] !! 1 = Some s ∧ el s = Some "div" ∧ "div" ≠ ""
  ∧ element 1 "span" [builder; s]
    = Throws DuplicateSelectorPartError [builder; s]
  ∧ [builder; t] !! 1 = Some t ∧ el t = Some "a" ∧ "a" ≠ ""
  ∧ element 1 "b" [builder; t]
    = Throws DuplicateSelectorPartError [builder; t].
Proof.
  intros s t.
  split; [reflexivity|]. split; [reflexivity|]. split; [discriminate|].
  split.
  { exact (proj1 (second_element_rejected [builder; s] 1 s "span" eq_refl)
             "div" eq_refl ltac:(discriminate)). }
  split; [reflexivity|]. split; [reflexivity|]. split; [discriminate|].
  exact (proj1 (second_element_rejected [builder; t] 1 t "b" eq_refl)
           "a" eq_refl ltac:(discriminate)).
Defined.

(** ** The order check *)

(** An id after a pseudo-class is accepted, and an id after a
    pseudo-element is refused with the order error: the order check of
    [id] reads the class and pseudo-element parts, not the pseudo-class
    part. *)
Lemma id_order_counterexample :
  let sc := mkState None None None None (Some ":hover") None None in
  let se := mkState None None None None None (Some "::after") None in
  pseudoClass entry "hover" heap0 = Returns 1 [builder; sc]
  ∧ present Id sc = false ∧ present PseudoClass sc = true
  ∧ id 1 "x" [builder; sc] = Returns 2 [builder; sc; set Aidi "#x" sc]
  ∧ pseudoElement entry "after" heap0 = Returns 1 [builder; se]
  ∧ present Id se = false ∧ present Class se = false
  ∧ present PseudoClass se = false ∧ present PseudoElement se = true
  ∧ id 1 "x" [builder; se] = Throws OutOfOrderSelectorPartError [builder; se].
Proof. repeat split. Qed.

(** C4 (amended): on an object with no id part yet, appending an id
    throws the order error whenever a class part or a pseudo-element part
    is present; in particular it throws it on the object [class('x')]
    returned; and it does not throw when, of the later kinds, at most
    attribute parts are present. *)
Theorem id_order_check (h : heap) (this : loc) (s : SelectorState)
    (value : string) :
  h !! this = Some s → present Id s = false →
  (present Class s = true ∨ present PseudoElement s = true →
     id this value h = Throws OutOfOrderSelectorPartError h)
  ∧ (∀ r h', class this "x" h = Returns r h' →
       id r value h' = Throws OutOfOrderSelectorPartError h')
  ∧ (present Class s = false → present PseudoClass s = false →
     present PseudoElement s = false →
     ∃ r h', id this value h = Returns r h').
Proof.
  intros Hthis. unfold present; simpl. intros Hid. split; [|split].
  - rewrite (id_run _ _ _ Hthis), Hid.
    intros [-> | ->]; [done|]. by rewrite orb_true_r.
  - intros r h'. rewrite (class_run _ _ _ Hthis).
    destruct (truthy (att s)); [done|]. intros [= <- <-].
    rewrite (id_run _ _ (set Cl (appended (cl s) ("." +:+ "x")) s))
      by by apply list_lookup_middle.
    cbn [set aidi cl pse]. rewrite Hid.
    by rewrite (truthy_appended (cl s) ("." +:+ "x") eq_refl).
  - intros Hcl _ Hpse. rewrite (id_run _ _ _ Hthis), Hid, Hcl, Hpse. eauto.
Qed.

Lemma id_order_check_witness :
  let s := mkState (Some "a") None (Some ".c") None None None None in
  let t := mkState (Some "a") None None (Some "[b]") None None None in
  [builder; s] !! 1 = Some s ∧ present Id s = false
  ∧ present Class s = true
  ∧ id 1 "x" [builder; s] = Throws OutOfOrderSelectorPartError [builder; s]
  ∧ [builder; t] !! 1 = Some t ∧ present Id t = false
  ∧ present Class t = false ∧ present PseudoClass t = false
  ∧ present PseudoElement t = false
  ∧ (∃ r h', id 1 "x" [builder; t] = Returns r h').
Proof.
  intros s t.
  split; [reflexivity|]. split; [reflexivity|]. split; [reflexivity|].
  split.
  { exact (proj1 (id_order_check [builder; s] 1 s "x" eq_refl eq_refl)
             (or_introl eq_refl)). }
  split; [reflexivity|]. split; [reflexivity|]. split; [reflexivity|].
  split; [reflexivity|]. split; [reflexivity|].
  exact (proj2 (proj2 (id_order_check [builder; t] 1 t "x" eq_refl eq_refl))
           eq_refl eq_refl eq_refl).
Defined.

(** C5: the order checks of the other append operations.  [element]
    throws the order error exactly when no element part but an id part is
    present, so only when an id part is present, and never on account of
    class, attribute, pseudo-class or pseudo-element parts; [class] throws
    it exactly when an attribute part is present, [attr] exactly when a
    pseudo-class part is present, [pseudoClass] exactly when a
    pseudo-element part is present. *)
Theorem order_check_matrix (h : heap) (this : loc) (s : SelectorState)
    (value : string) :
  h !! this = Some s →
  (thrown (element this value h) = Some OutOfOrderSelectorPartError
     ↔ present Element s = false ∧ present Id s = true)
  ∧ (present Id s = false →
     thrown (element this value h) ≠ Some OutOfOrderSelectorPartError)
  ∧ (thrown (class this value h) = Some OutOfOrderSelectorPartError
     ↔ present Attr s = true)
  ∧ (thrown (attr this value h) = Some OutOfOrderSelectorPartError
     ↔ present PseudoClass s = true)
  ∧ (thrown (pseudoClass this value h) = Some OutOfOrderSelectorPartError
     ↔ present PseudoElement s = true).
Proof.
  intros Hthis. unfold present; simpl.
  rewrite (element_run _ _ _ Hthis), (class_run _ _ _ Hthis),
    (attr_run _ _ _ Hthis), (pseudoClass_run _ _ _ Hthis).
  destruct (truthy (el s)), (truthy (aidi s)), (truthy (att s)),
    (truthy (psc s)), (truthy (pse s)); simpl; intuition congruence.
Qed.

Lemma order_check_matrix_witness :
  let s := mkState None (Some "#i") None (Some "[b]") (Some ":c") (Some "::d") None in
  let h := [builder; s] in
  h !! 1 = Some s
  ∧ thrown (element 1 "a" h) = Some OutOfOrderSelectorPartError
  ∧ thrown (class 1 "a" h) = Some OutOfOrderSelectorPartError
  ∧ thrown (attr 1 "a" h) = Some OutOfOrderSelectorPartError
  ∧ thrown (pseudoClass 1 "a" h) = Some OutOfOrderSelectorPartError.
Proof.
  intros s h.
  destruct (order_check_matrix h 1 s "a" eq_refl) as (He & _ & Hc & Ha & Hp).
  split; [reflexivity|].
  split; [exact (proj2 He (conj eq_refl eq_refl))|].
  split; [exact (proj2 Hc eq_refl)|].
  split; [exact (proj2 Ha eq_refl)|exact (proj2 Hp eq_refl)].
Defined.

(** ** Combination *)

Lemma render_combined (s : SelectorState) :
  combined s = true → render s = toStr (item s).
Proof. unfold combined, render. by intros ->. Qed.

(** No append operation writes [item]. *)
Lemma appends_keep_item (ops : list (kind * string)) :
  ∀ (h h2 : heap) (this r2 : loc) (s : SelectorState),
    h !! this = Some s → appends ops this h = Returns r2 h2 →
    ∃ s2, h2 !! r2 = Some s2 ∧ item s2 = item s.
Proof.
  induction ops as [|[k value] ops IH]; intros h h2 this r2 s Hthis; simpl.
  - intros [= <- <-]. eauto.
  - unfold mbind, M_bind.
    destruct (append k this value h) as [r h'| |] eqn:Hrun; [|done..].
    destruct (append_returns _ _ _ _ _ _ _ Hthis Hrun) as (_ & -> & ->).
    intros Hrest.
    destruct (IH _ _ _ _ _ (list_lookup_middle h [] _ _ eq_refl) Hrest)
      as (s2 & Hs2 & Hitem).
    exists s2. split; [done|]. rewrite Hitem.
    apply (get_set_ne _ Item). apply not_eq_sym, part_of_not_item.
Qed.

(** C6: [combine(left, c, right)] called on the builder object returns an
    object whose [stringify()] is the text of [left], a space, [c] as
    given, a space, and the text of [right]; each of the six append
    operations succeeds on that object, and after any chain of appends
    that return, [stringify()] still returns that same text. *)
Theorem combine_renders_joined (h : heap) (left right : loc)
    (sl sr : SelectorState) (c : string) :
  h !! entry = Some builder → h !! left = Some sl → h !! right = Some sr →
  ∃ tl tr r h',
    stringify left h = Returns tl h ∧ stringify right h = Returns tr h
    ∧ combine entry left c right h = Returns r h'
    ∧ stringify r h' = Returns (tl +:+ " " +:+ c +:+ " " +:+ tr) h'
    ∧ (∀ k value, ∃ r2 h2,
         append k r value h' = Returns r2 h2
         ∧ stringify r2 h2 = Returns (tl +:+ " " +:+ c +:+ " " +:+ tr) h2)
    ∧ (∀ ops r2 h2, appends ops r h' = Returns r2 h2 →
         stringify r2 h2 = Returns (tl +:+ " " +:+ c +:+ " " +:+ tr) h2).
Proof.
  intros Hentry Hl Hr.
  exists (render sl), (render sr), (length h).
  set (j := joined (render sl) c (render sr)).
  set (sc := set Item j builder).
  exists (h ++ [sc]).
  assert (Hsc : (h ++ [sc]) !! length h = Some sc)
    by by apply list_lookup_middle.
  assert (Hj : ∀ s2, item s2 = Some j → render s2 = j).
  { intros s2 Hs2. rewrite render_combined; unfold combined; rewrite Hs2;
      [done|apply truthy_joined]. }
  split; [by apply stringify_run|]. split; [by apply stringify_run|].
  split; [by rewrite (combine_run _ _ _ _ _ _ _ _ Hentry Hl Hr)|].
  split; [|split].
  - rewrite (stringify_run _ _ _ Hsc). by rewrite (Hj sc).
  - intros k value. rewrite (append_run _ _ _ _ _ Hsc).
    assert (guard k sc = None) as -> by by destruct k.
    do 2 eexists. split; [done|].
    rewrite (stringify_run _ _ _ (list_lookup_middle _ [] _ _ eq_refl)).
    rewrite Hj; [done|].
    apply (get_set_ne _ Item). apply not_eq_sym, part_of_not_item.
  - intros ops r2 h2 Hrun.
    destruct (appends_keep_item _ _ _ _ _ _ Hsc Hrun) as (s2 & Hs2 & Hitem).
    rewrite (stringify_run _ _ _ Hs2). by rewrite (Hj s2).
Qed.

Lemma combine_renders_joined_witness :
  let sl := mkState (Some "div") (Some "#main") None None None None None in
  let sr := mkState (Some "span") None None None None None None in
  let h := [builder; sl; sr] in
  h !! entry = Some builder ∧ h !! 1 = Some sl ∧ h !! 2 = Some sr
  ∧ ∃ tl tr r h',
      stringify 1 h = Returns tl h ∧ stringify 2 h = Returns tr h
      ∧ combine entry 1 "+" 2 h = Returns r h'
      ∧ stringify r h' = Returns (tl +:+ " " +:+ "+" +:+ " " +:+ tr) h'.
Proof.
  intros sl sr h.
  split; [reflexivity|]. split; [reflexivity|]. split; [reflexivity|].
  destruct (combine_renders_joined h 1 2 sl sr "+" eq_refl eq_refl eq_refl)
    as (tl & tr & r & h' & H1 & H2 & H3 & H4 & _).
  exists tl, tr, r, h'. repeat split; assumption.
Defined.

(** [combine] on an object that already carries a combination text:
    the new text is put after the old one, it does not replace it. *)
Lemma combine_twice_counterexample :
  returned ((a ← element entry "a"; b ← element entry "b";
             c ← combine entry a "+" b;
             d ← element entry "c"; e ← element entry "d";
             f ← combine c d ">" e; stringify f) heap0)
  = Some "a + bc > d"
  ∧ returned ((a ← element entry "a"; b ← element entry "b";
               c ← combine entry a "+" b;
               d ← element entry "c"; e ← element entry "d";
               f ← combine c d ">" e; stringify f) heap0)
    ≠ Some "c > d".
Proof. split; [reflexivity|discriminate]. Qed.

(** C7 (amended): [combine] called on an object whose combination text is
    already set appends the newly computed
    ['<left> <combinator> <right>'] text to that text, with nothing in
    between, so [stringify()] of the object returned gives the old text
    followed by the new combination. *)
Theorem combine_appends_to_combined (h : heap) (this left right : loc)
    (s sl sr : SelectorState) (c : string) :
  h !! this = Some s → h !! left = Some sl → h !! right = Some sr →
  combined s = true →
  ∃ old tl tr r h',
    stringify this h = Returns old h
    ∧ stringify left h = Returns tl h ∧ stringify right h = Returns tr h
    ∧ combine this left c right h = Returns r h'
    ∧ stringify r h'
      = Returns (old +:+ (tl +:+ " " +:+ c +:+ " " +:+ tr)) h'.
Proof.
  intros Hthis Hl Hr Hc.
  exists (render s), (render sl), (render sr), (length h). eexists.
  split; [by apply stringify_run|]. split; [by apply stringify_run|].
  split; [by apply stringify_run|].
  split; [by rewrite (combine_run _ _ _ _ _ _ _ _ Hthis Hl Hr)|].
  rewrite (stringify_run _ _ _ (list_lookup_middle _ [] _ _ eq_refl)).
  rewrite (render_combined s Hc). unfold appended, render.
  unfold combined in Hc. rewrite Hc. cbn [set item].
  destruct (item s) as [[|a o]|]; try done.
Qed.

Lemma combine_appends_to_combined_witness :
  let s := mkState None None None None None None (Some "a + b") in
  let sl := mkState (Some "c") None None None None None None in
  let sr := mkState (Some "d") None None None None None None in
  let h := [builder; s; sl; sr] in
  h !! 1 = Some s ∧ h !! 2 = Some sl ∧ h !! 3 = Some sr
  ∧ combined s = true
  ∧ ∃ old tl tr r h',
      stringify 1 h = Returns old h
      ∧ stringify 2 h = Returns tl h ∧ stringify 3 h = Returns tr h
      ∧ combine 1 2 ">" 3 h = Returns r h'
      ∧ stringify r h'
        = Returns (old +:+ (tl +:+ " " +:+ ">" +:+ " " +:+ tr)) h'.
Proof.
  intros s sl sr h.
  split; [reflexivity|]. split; [reflexivity|]. split; [reflexivity|].
  split; [reflexivity|].
  exact (combine_appends_to_combined h 1 2 3 s sl sr ">"
           eq_refl eq_refl eq_refl eq_refl).
Defined.

(** ** Objects are never written after they are returned *)

(** C8: every append and every combine that returns gives the reference
    of a new object and leaves the heap it found as it was, the receiver
    included: the new object is the copy of the receiver with exactly one
    property written (the part of the kind appended, or [item]); an
    append that throws leaves the heap as it was.  So with
    [base = element('a')], [base.id('x')] renders ['a#x'], [base.class('y')]
    renders ['a.y'] and [base] still renders ['a']. *)
Theorem operations_do_not_mutate (h : heap) (this : loc) (s : SelectorState) :
  h !! this = Some s →
  (∀ k value r h', append k this value h = Returns r h' →
     h !! r = None ∧ h' !! this = Some s
     ∧ (∀ l x, h !! l = Some x → h' !! l = Some x)
     ∧ ∃ s', h' !! r = Some s'
         ∧ (∃ v, s' = set (part_of k) v s)
         ∧ ∀ p, p ≠ part_of k → get p s' = get p s)
  ∧ (∀ k value e h', append k this value h = Throws e h' → h' = h)
  ∧ (∀ left c right sl sr r h',
       h !! left = Some sl → h !! right = Some sr →
       combine this left c right h = Returns r h' →
       h !! r = None ∧ h' !! this = Some s
       ∧ (∀ l x, h !! l = Some x → h' !! l = Some x)
       ∧ ∃ s', h' !! r = Some s'
           ∧ (∃ v, s' = set Item v s)
           ∧ ∀ p, p ≠ Item → get p s' = get p s)
  ∧ returned ((base ← element entry "a";
               x ← id base "x"; y ← class base "y";
               tx ← stringify x; ty ← stringify y; tb ← stringify base;
               mret (tx, ty, tb)) heap0)
    = Some ("a#x", "a.y", "a").
Proof.
  intros Hthis. split; [|split; [|split; [|reflexivity]]].
  - intros k value r h' Hrun.
    destruct (append_returns _ _ _ _ _ _ _ Hthis Hrun) as (_ & -> & ->).
    split; [by apply copy_fresh|]. split; [by apply copy_frame|].
    split; [intros l x; by apply copy_frame|].
    eexists. split; [by apply list_lookup_middle|].
    split; [by eexists|]. intros p Hp. by apply get_set_ne.
  - intros k value e h' Hrun.
    by destruct (append_throws _ _ _ _ _ _ _ Hthis Hrun) as (_ & ->).
  - intros left c right sl sr r h' Hl Hr.
    rewrite (combine_run _ _ _ _ _ _ _ _ Hthis Hl Hr). intros [= <- <-].
    split; [by apply copy_fresh|]. split; [by apply copy_frame|].
    split; [intros l x; by apply copy_frame|].
    eexists. split; [by apply list_lookup_middle|].
    split; [by eexists|]. intros p Hp. exact (get_set_ne Item p _ s Hp).
Qed.

Lemma operations_do_not_mutate_witness :
  let base := mkState (Some "a") None None None None None None in
  let h := [builder; base] in
  h !! 1 = Some base
  ∧ id 1 "x" h = Returns 2 [builder; base; set Aidi "#x" base]
  ∧ h !! 2 = None
  ∧ [builder; base; set Aidi "#x" base] !! 1 = Some base.
Proof.
  intros base h.
  assert (Hrun : append Id 1 "x" h
                 = Returns 2 [builder; base; set Aidi "#x" base])
    by reflexivity.
  destruct (proj1 (operations_do_not_mutate h 1 base eq_refl) Id "x" _ _ Hrun)
    as (Hnew & Hsame & _).
  split; [reflexivity|]. split; [exact Hrun|]. split; assumption.
Defined.

(** ** Chains of appends *)

Lemma part_Some (x : string) : part (Some x) = x.
Proof. by destruct x. Qed.

Lemma part_appended (old : option string) (frag : string) :
  part (Some (appended old frag)) = part old +:+ frag.
Proof.
  rewrite part_Some. unfold appended, part.
  by destruct (truthy old).
Qed.

Lemma part_absent (k : kind) (s : SelectorState) :
  present k s = false → part (get (part_of k) s) = "".
Proof. unfold present, part. by intros ->. Qed.

Lemma rank_inj (k k' : kind) : rank k = rank k' → k = k'.
Proof. by destruct k, k'. Qed.

Lemma part_of_inj (k k' : kind) : part_of k = part_of k' → k = k'.
Proof. by destruct k, k'. Qed.

Lemma item_after_append (k : kind) (value : string) (s : SelectorState) :
  item (after_append k value s) = item s.
Proof. by destruct k. Qed.

Lemma get_after_append_eq (k : kind) (value : string) (s : SelectorState) :
  part (get (part_of k) (after_append k value s))
  = part (get (part_of k) s) +:+ marked k value.
Proof. unfold after_append. by rewrite get_set_eq, part_appended. Qed.

Lemma get_after_append_ne (k k' : kind) (value : string) (s : SelectorState) :
  k' ≠ k → get (part_of k') (after_append k value s) = get (part_of k') s.
Proof.
  intros Hk. apply get_set_ne. intros Hp. by apply Hk, part_of_inj.
Qed.

(** The text of an object, part by part. *)
Lemma render_parts (s : SelectorState) :
  combined s = false →
  render s = concat_all ((λ k, part (get (part_of k) s)) <$> canonical_order).
Proof.
  unfold combined, render. intros ->. simpl. unfold concat_all; simpl.
  by rewrite append_nil_r.
Qed.

Lemma append_step (h : heap) (this : loc) (s : SelectorState)
    (k : kind) (value : string) :
  h !! this = Some s → guard k s = None →
  append k this value h
  = Returns (length h) (h ++ [after_append k value s]).
Proof. intros Hthis Hg. by rewrite (append_run _ _ _ _ _ Hthis), Hg. Qed.

Lemma render_after_in_order (k : kind) (value : string) (s : SelectorState) :
  combined s = false →
  (∀ k', rank k < rank k' → present k' s = false) →
  render (after_append k value s) = render s +:+ marked k value.
Proof.
  intros Hc Hlater.
  rewrite !render_parts by (by rewrite ?item_after_append; unfold combined in *;
                            rewrite ?item_after_append).
  assert (Hpart : ∀ k', part (get (part_of k') (after_append k value s))
                        = if decide (k' = k)
                          then part (get (part_of k') s) +:+ marked k value
                          else part (get (part_of k') s)).
  { intros k'. destruct (decide (k' = k)) as [->|Hne];
      [apply get_after_append_eq|by rewrite get_after_append_ne]. }
  unfold canonical_order, concat_all; cbn [fmap list_fmap foldr].
  rewrite !Hpart.
  destruct k;
    repeat match goal with
      | |- context [part (get (part_of ?k') s)] =>
          rewrite (part_absent k' s) by (apply Hlater; simpl; lia)
      end;
    simpl; rewrite ?append_nil_r, ?append_assoc, ?append_nil_r; done.
Qed.

Lemma built_below_builder : built_below 0 builder.
Proof. split; [done|]. intros k _ Hk. by destruct k. Qed.

Lemma built_below_absent (n : nat) (s : SelectorState) (k : kind) :
  built_below n s → n ≤ rank k →
  (present k s = true → repeatable k = true)
  ∧ ∀ k', rank k < rank k' → present k' s = false.
Proof.
  intros [_ Hs] Hn. split.
  - intros Hk. by destruct (Hs k Hn Hk).
  - intros k' Hk'. destruct (present k' s) eqn:Hp; [|done].
    destruct (Hs k' ltac:(lia) Hp). lia.
Qed.

Lemma built_below_guard (n : nat) (s : SelectorState) (k : kind) :
  built_below n s → n ≤ rank k → guard k s = None.
Proof.
  intros Hs Hn. destruct (built_below_absent n s k Hs Hn) as [Hrep Hlater].
  assert (Habsent : ∀ k', rank k < rank k' →
                      truthy (get (part_of k') s) = false) by exact Hlater.
  unfold present in Hrep.
  destruct k; simpl in *;
    repeat match goal with
      | |- context [truthy (?f s)] =>
          first
            [ rewrite (Habsent Element ltac:(simpl; lia) : truthy (el s) = false)
            | rewrite (Habsent Id ltac:(simpl; lia) : truthy (aidi s) = false)
            | rewrite (Habsent Class ltac:(simpl; lia) : truthy (cl s) = false)
            | rewrite (Habsent Attr ltac:(simpl; lia) : truthy (att s) = false)
            | rewrite (Habsent PseudoClass ltac:(simpl; lia)
                       : truthy (psc s) = false)
            | rewrite (Habsent PseudoElement ltac:(simpl; lia)
                       : truthy (pse s) = false)
            | destruct (truthy (f s)) eqn:?; [by specialize (Hrep eq_refl)|] ]
      end; done.
Qed.

Lemma built_below_step (n : nat) (s : SelectorState) (k : kind)
    (value : string) :
  built_below n s → n ≤ rank k →
  built_below (next_rank k) (after_append k value s).
Proof.
  intros Hs Hn. pose proof Hs as [Hc Hall]. split.
  { unfold combined in *. by rewrite item_after_append. }
  intros k' Hk'. destruct (decide (k' = k)) as [->|Hne].
  - intros _. unfold next_rank in *. destruct (repeatable k); [done|lia].
  - unfold present. rewrite get_after_append_ne by done. intros Hp.
    assert (rank k ≤ rank k')
      by (unfold next_rank in Hk'; destruct (repeatable k); lia).
    destruct (Hall k' ltac:(lia) Hp) as [Hr _].
    destruct Hne. apply rank_inj. lia.
Qed.

(** A chain in canonical order runs to its end and adds its marked
    values, in call order, to the text of the receiver. *)
Lemma well_ordered_run (ops : list (kind * string)) :
  ∀ (n : nat) (h : heap) (this : loc) (s : SelectorState),
    h !! this = Some s → built_below n s → well_ordered n ops = true →
    ∃ r h' s', appends ops this h = Returns r h' ∧ h' !! r = Some s'
      ∧ render s' = render s +:+ written ops.
Proof.
  induction ops as [|[k value] ops IH]; intros n h this s Hthis Hs; simpl.
  - intros _. exists this, h, s. by rewrite append_nil_r.
  - intros [Hn Hops]%andb_true_iff. apply Nat.leb_le in Hn.
    unfold mbind, M_bind.
    rewrite (append_step _ _ _ _ _ Hthis (built_below_guard _ _ _ Hs Hn)).
    destruct (IH _ (h ++ [after_append k value s]) (length h) _
                (list_lookup_middle h [] _ _ eq_refl)
                (built_below_step _ _ _ value Hs Hn) Hops)
      as (r & h' & s' & Hrun & Hr & Hrender).
    exists r, h', s'. split; [done|]. split; [done|].
    rewrite Hrender, render_after_in_order;
      [|apply Hs|by apply (built_below_absent n)].
    unfold written, concat_all. simpl. by rewrite append_assoc.
Qed.

(** Any chain of appends that returns: part by part, the object returned
    holds what the receiver held followed by the marked values of the
    calls of that kind, in call order. *)
Lemma appends_parts (ops : list (kind * string)) :
  ∀ (h h' : heap) (this r : loc) (s : SelectorState),
    h !! this = Some s → appends ops this h = Returns r h' →
    ∃ s', h' !! r = Some s' ∧ item s' = item s
      ∧ ∀ k, part (get (part_of k) s')
             = part (get (part_of k) s) +:+ texts k ops.
Proof.
  induction ops as [|[k value] ops IH]; intros h h' this r s Hthis; simpl.
  - intros [= <- <-]. exists s. split; [done|]. split; [done|].
    intros k. by rewrite append_nil_r.
  - unfold mbind, M_bind.
    destruct (append k this value h) as [r1 h1| |] eqn:Hrun; [|done..].
    destruct (append_returns _ _ _ _ _ _ _ Hthis Hrun) as (_ & -> & ->).
    intros Hrest.
    destruct (IH _ _ _ _ _ (list_lookup_middle h [] _ _ eq_refl) Hrest)
      as (s' & Hs' & Hitem & Hparts).
    exists s'. split; [done|].
    split; [by rewrite Hitem; apply (item_after_append k value s)|].
    intros k'. rewrite Hparts. unfold texts. rewrite filter_cons. simpl.
    destruct (decide (k = k')) as [<-|Hne].
    + fold (after_append k value s). rewrite get_after_append_eq.
      unfold written, concat_all. simpl. by rewrite append_assoc.
    + fold (after_append k value s).
      rewrite get_after_append_ne by by apply not_eq_sym. done.
Qed.

(** X1: whatever the order of the calls, if a chain of appends started
    on the builder object returns, [stringify()] of the object returned
    is the chain regrouped by kind: kinds in canonical order, the marked
    values of one kind in call order. *)
Theorem chain_renders_grouped (h h' : heap) (this r : loc)
    (ops : list (kind * string)) :
  h !! this = Some builder → appends ops this h = Returns r h' →
  stringify r h' = Returns (grouped ops) h'.
Proof.
  intros Hthis Hrun.
  destruct (appends_parts _ _ _ _ _ _ Hthis Hrun) as (s' & Hs' & Hitem & Hparts).
  rewrite (stringify_run _ _ _ Hs'), render_parts
    by (unfold combined; by rewrite Hitem).
  unfold grouped. do 2 f_equal. apply list_fmap_ext. intros _ k _.
  rewrite Hparts. by destruct k.
Qed.

Lemma chain_renders_grouped_witness :
  let ops := [(Class, "c"); (Element, "a"); (PseudoClass, "h"); (Class, "d")] in
  heap0 !! entry = Some builder
  ∧ ∃ r h', appends ops entry heap0 = Returns r h'
      ∧ stringify r h' = Returns "a.c.d:h" h'.
Proof.
  intros ops. split; [reflexivity|]. do 2 eexists.
  split; [reflexivity|].
  exact (chain_renders_grouped heap0 _ entry _ ops eq_refl eq_refl).
Defined.

(** X2: a chain written in canonical order (kinds never go back; element,
    id and pseudo-element at most once) and started on the builder object
    is accepted whatever the values are, and [stringify()] of the object
    returned is the marked values in call order. *)
Theorem canonical_chain_accepted (h : heap) (this : loc)
    (ops : list (kind * string)) :
  h !! this = Some builder → well_ordered 0 ops = true →
  ∃ r h', appends ops this h = Returns r h'
    ∧ stringify r h' = Returns (written ops) h'.
Proof.
  intros Hthis Hops.
  destruct (well_ordered_run ops 0 h this builder Hthis built_below_builder Hops)
    as (r & h' & s' & Hrun & Hr & Hrender).
  exists r, h'. split; [done|].
  by rewrite (stringify_run _ _ _ Hr), Hrender.
Qed.

Lemma canonical_chain_accepted_witness :
  let ops := [(Element, "a"); (Attr, "href"); (Attr, "rel"); (PseudoClass, "focus");
              (PseudoElement, "after")] in
  heap0 !! entry = Some builder ∧ well_ordered 0 ops = true
  ∧ ∃ r h', appends ops entry heap0 = Returns r h'
      ∧ stringify r h' = Returns "a[href][rel]:focus::after" h'.
Proof.
  intros ops. split; [reflexivity|]. split; [reflexivity|].
  exact (canonical_chain_accepted heap0 entry ops eq_refl eq_refl).
Defined.

(** X3: on an object without combination text and without any part of a
    later kind, an append that returns adds the marked value at the end
    of the text: [stringify()] of the new object is [stringify()] of the
    receiver followed by marker and value. *)
Theorem in_order_append_extends_text (h h' : heap) (this r : loc)
    (s : SelectorState) (k : kind) (value : string) :
  h !! this = Some s → combined s = false →
  (∀ k', rank k < rank k' → present k' s = false) →
  append k this value h = Returns r h' →
  ∃ t, stringify this h = Returns t h
    ∧ stringify r h' = Returns (t +:+ marked k value) h'.
Proof.
  intros Hthis Hc Hlater Hrun.
  destruct (append_returns _ _ _ _ _ _ _ Hthis Hrun) as (_ & -> & ->).
  exists (render s). split; [by apply stringify_run|].
  rewrite (stringify_run _ _ _ (list_lookup_middle h [] _ _ eq_refl)).
  fold (after_append k value s). by rewrite render_after_in_order.
Qed.

Lemma in_order_append_extends_text_witness :
  let s := mkState (Some "a") None (Some ".b") None None None None in
  let h := [builder; s] in
  h !! 1 = Some s ∧ combined s = false
  ∧ (∀ k', rank Class < rank k' → present k' s = false)
  ∧ class 1 "c" h = Returns 2 (h ++ [after_append Class "c" s])
  ∧ ∃ t, stringify 1 h = Returns t h
      ∧ stringify 2 (h ++ [after_append Class "c" s])
        = Returns (t +:+ ".c") (h ++ [after_append Class "c" s]).
Proof.
  intros s h.
  assert (Hlater : ∀ k', rank Class < rank k' → present k' s = false).
  { intros k' Hk'. destruct k'; try reflexivity; simpl in Hk'; lia. }
  split; [reflexivity|]. split; [reflexivity|]. split; [exact Hlater|].
  split; [reflexivity|].
  exact (in_order_append_extends_text h _ 1 2 s Class "c"
           eq_refl eq_refl Hlater eq_refl).
Defined.

(** ** What the checks accept *)

(** X4: the two checks are the only way an append can fail.  On an
    allocated object every append either returns or throws, and it
    returns exactly when: [element], no element and no id part is
    present; [id], no id, class or pseudo-element part; [class], no
    attribute part; [attr], no pseudo-class part; [pseudoClass] and
    [pseudoElement], no pseudo-element part. *)
Theorem append_accepted_iff (h : heap) (this : loc) (s : SelectorState)
    (value : string) :
  h !! this = Some s →
  (∀ k, append k this value h ≠ Stuck)
  ∧ (is_Some (returned (element this value h))
       ↔ present Element s = false ∧ present Id s = false)
  ∧ (is_Some (returned (id this value h))
       ↔ present Id s = false ∧ present Class s = false
         ∧ present PseudoElement s = false)
  ∧ (is_Some (returned (class this value h)) ↔ present Attr s = false)
  ∧ (is_Some (returned (attr this value h)) ↔ present PseudoClass s = false)
  ∧ (is_Some (returned (pseudoClass this value h))
       ↔ present PseudoElement s = false)
  ∧ (is_Some (returned (pseudoElement this value h))
       ↔ present PseudoElement s = false).
Proof.
  intros Hthis. split.
  { intros k. rewrite (append_run _ _ _ _ _ Hthis). by destruct (guard k s). }
  unfold present; simpl.
  rewrite (element_run _ _ _ Hthis), (id_run _ _ _ Hthis),
    (class_run _ _ _ Hthis), (attr_run _ _ _ Hthis),
    (pseudoClass_run _ _ _ Hthis), (pseudoElement_run _ _ _ Hthis).
  destruct (truthy (el s)), (truthy (aidi s)), (truthy (cl s)),
    (truthy (att s)), (truthy (psc s)), (truthy (pse s)); simpl;
    rewrite ?is_Some_alt; intuition congruence.
Qed.

Lemma append_accepted_iff_witness :
  let s := mkState None None None None (Some ":hover") None None in
  let h := [builder; s] in
  h !! 1 = Some s
  ∧ is_Some (returned (element 1 "a" h))
  ∧ is_Some (returned (class 1 "c" h))
  ∧ ¬ is_Some (returned (attr 1 "b" h)).
Proof.
  intros s h.
  destruct (append_accepted_iff h 1 s "a" eq_refl) as (_ & He & _).
  destruct (append_accepted_iff h 1 s "c" eq_refl) as (_ & _ & _ & Hc & _).
  destruct (append_accepted_iff h 1 s "b" eq_refl) as (_ & _ & _ & _ & Ha & _).
  split; [reflexivity|].
  split; [exact (proj2 He (conj eq_refl eq_refl))|].
  split; [exact (proj2 Hc eq_refl)|].
  intros Hb. by pose proof (proj1 Ha Hb).
Defined.

(** X5: the checks never read the value: whether an append throws, and
    which error, is the same for any two values. *)
Theorem checks_ignore_value (h : heap) (this : loc) (s : SelectorState)
    (k : kind) (v1 v2 : string) :
  h !! this = Some s →
  thrown (append k this v1 h) = thrown (append k this v2 h).
Proof.
  intros Hthis. rewrite !(append_run _ _ _ _ _ Hthis).
  by destruct (guard k s).
Qed.

Lemma checks_ignore_value_witness :
  let s := mkState None None None (Some "[b]") None None None in
  [builder; s] !! 1 = Some s
  ∧ thrown (class 1 "" [builder; s]) = thrown (class 1 "c d" [builder; s]).
Proof.
  intros s. split; [reflexivity|].
  exact (checks_ignore_value [builder; s] 1 s Class "" "c d" eq_refl).
Defined.

(** X6: the concatenating branch of [id] and of [pseudoElement] is never
    taken: whenever one of them returns, the receiver had no part of
    that kind and the part of the new object is exactly the marker and
    the value, ['#' + value] or ['::' + value]. *)
Theorem id_pseudoElement_single (h : heap) (this : loc) (s : SelectorState)
    (value : string) :
  h !! this = Some s →
  (∀ r h', id this value h = Returns r h' →
     present Id s = false
     ∧ ∃ s', h' !! r = Some s' ∧ aidi s' = Some ("#" +:+ value))
  ∧ (∀ r h', pseudoElement this value h = Returns r h' →
       present PseudoElement s = false
       ∧ ∃ s', h' !! r = Some s' ∧ pse s' = Some ("::" +:+ value)).
Proof.
  intros Hthis.
  rewrite (id_run _ _ _ Hthis), (pseudoElement_run _ _ _ Hthis).
  unfold present; simpl. split; intros r h'.
  - destruct (truthy (aidi s)); [done|].
    destruct (truthy (cl s) || truthy (pse s)); [done|]. intros [= <- <-].
    split; [done|]. eexists. split; [by apply list_lookup_middle|done].
  - destruct (truthy (pse s)); [done|]. intros [= <- <-].
    split; [done|]. eexists. split; [by apply list_lookup_middle|done].
Qed.

Lemma id_pseudoElement_single_witness :
  let s := mkState (Some "a") None None None None None None in
  let h := [builder; s] in
  h !! 1 = Some s
  ∧ id 1 "x" h = Returns 2 (h ++ [set Aidi "#x" s])
  ∧ ∃ s', (h ++ [set Aidi "#x" s]) !! 2 = Some s' ∧ aidi s' = Some "#x".
Proof.
  intros s h. split; [reflexivity|]. split; [reflexivity|].
  exact (proj2 (proj1 (id_pseudoElement_single h 1 s "x" eq_refl)
                  2 (h ++ [set Aidi "#x" s]) eq_refl)).
Defined.

(** ** More on combination *)

Lemma guard_set_item (k : kind) (v : string) (s : SelectorState) :
  guard k (set Item v s) = guard k s.
Proof. by destruct k. Qed.

(** X7: [combine] makes no check: for every receiver, every combinator
    and every two operands it returns; and when the receiver has no
    combination text, the text of the object returned is the two operand
    texts around the combinator, whatever parts the receiver has: they
    are copied but do not show. *)
Theorem combine_always_returns (h : heap) (this left right : loc)
    (s sl sr : SelectorState) (c : string) :
  h !! this = Some s → h !! left = Some sl → h !! right = Some sr →
  ∃ tl tr r h',
    stringify left h = Returns tl h ∧ stringify right h = Returns tr h
    ∧ combine this left c right h = Returns r h'
    ∧ (combined s = false →
       stringify r h' = Returns (tl +:+ " " +:+ c +:+ " " +:+ tr) h').
Proof.
  intros Hthis Hl Hr.
  exists (render sl), (render sr), (length h). eexists.
  split; [by apply stringify_run|]. split; [by apply stringify_run|].
  split; [by rewrite (combine_run _ _ _ _ _ _ _ _ Hthis Hl Hr)|].
  intros Hc. rewrite (stringify_run _ _ _ (list_lookup_middle _ [] _ _ eq_refl)).
  unfold combined in Hc. unfold appended. rewrite Hc.
  rewrite render_combined; [done|]. apply truthy_joined.
Qed.

Lemma combine_always_returns_witness :
  let s := mkState (Some "x") (Some "#y") None None None None None in
  let sl := mkState (Some "a") None None None None None None in
  let h := [builder; s; sl] in
  h !! 1 = Some s ∧ h !! 2 = Some sl
  ∧ ∃ tl tr r h',
      stringify 2 h = Returns tl h ∧ stringify 2 h = Returns tr h
      ∧ combine 1 2 "" 2 h = Returns r h'
      ∧ combined s = false
      ∧ stringify r h' = Returns (tl +:+ " " +:+ "" +:+ " " +:+ tr) h'.
Proof.
  intros s sl h. split; [reflexivity|]. split; [reflexivity|].
  destruct (combine_always_returns h 1 2 2 s sl sl "" eq_refl eq_refl eq_refl)
    as (tl & tr & r & h' & Hl & Hr & Hrun & Htext).
  exists tl, tr, r, h'.
  split; [exact Hl|]. split; [exact Hr|]. split; [exact Hrun|].
  split; [reflexivity|exact (Htext eq_refl)].
Defined.

Lemma combine_on_builder (h : heap) (left right : loc)
    (sl sr : SelectorState) (c : string) :
  h !! entry = Some builder → h !! left = Some sl → h !! right = Some sr →
  combine entry left c right h
  = Returns (length h)
      (h ++ [set Item (joined (render sl) c (render sr)) builder]).
Proof. intros He Hl Hr. by rewrite (combine_run _ _ _ _ _ _ _ _ He Hl Hr). Qed.

Lemma render_set_item_builder (t : string) :
  truthy (Some t) = true → render (set Item t builder) = t.
Proof. intros Ht. by rewrite render_combined. Qed.

(** X8: nesting does not show in the text.  Combining [a c1 b] first and
    the result with [c2 d], or [b c2 d] first and [a] with [c1] and the
    result, both on the builder object, renders the same text:
    the three operand texts in order with the two combinators between
    them, each between single spaces. *)
Theorem combine_nesting_flat (h : heap) (a b d : loc)
    (sa sb sd : SelectorState) (c1 c2 : string) :
  h !! entry = Some builder →
  h !! a = Some sa → h !! b = Some sb → h !! d = Some sd →
  ∃ ta tb td,
    stringify a h = Returns ta h ∧ stringify b h = Returns tb h
    ∧ stringify d h = Returns td h
    ∧ returned ((x ← combine entry a c1 b; y ← combine entry x c2 d;
                 stringify y) h)
      = Some (ta +:+ " " +:+ c1 +:+ " " +:+ tb +:+ " " +:+ c2 +:+ " " +:+ td)
    ∧ returned ((x ← combine entry b c2 d; y ← combine entry a c1 x;
                 stringify y) h)
      = Some (ta +:+ " " +:+ c1 +:+ " " +:+ tb +:+ " " +:+ c2 +:+ " " +:+ td).
Proof.
  intros He Ha Hb Hd. exists (render sa), (render sb), (render sd).
  split; [by apply stringify_run|]. split; [by apply stringify_run|].
  split; [by apply stringify_run|].
  unfold mbind, M_bind. split.
  - rewrite (combine_on_builder _ _ _ _ _ _ He Ha Hb).
    rewrite (combine_on_builder (h ++ [_]) (length h) d _ sd c2)
      by (first [by apply copy_frame | by apply list_lookup_middle]).
    rewrite (stringify_run _ _ _ (list_lookup_middle _ [] _ _ eq_refl)).
    rewrite !render_set_item_builder by apply truthy_joined.
    unfold joined. simpl. by rewrite ?append_assoc.
  - rewrite (combine_on_builder _ _ _ _ _ _ He Hb Hd).
    rewrite (combine_on_builder (h ++ [_]) a (length h) sa _ c1)
      by (first [by apply copy_frame | by apply list_lookup_middle]).
    rewrite (stringify_run _ _ _ (list_lookup_middle _ [] _ _ eq_refl)).
    rewrite !render_set_item_builder by apply truthy_joined.
    unfold joined. simpl. by rewrite ?append_assoc.
Qed.

Lemma combine_nesting_flat_witness :
  let sa := mkState (Some "a") None None None None None None in
  let sb := mkState (Some "b") None None None None None None in
  let sd := mkState (Some "d") None None None None None None in
  let h := [builder; sa; sb; sd] in
  h !! entry = Some builder ∧ h !! 1 = Some sa ∧ h !! 2 = Some sb
  ∧ h !! 3 = Some sd
  ∧ ∃ ta tb td,
      stringify 1 h = Returns ta h ∧ stringify 2 h = Returns tb h
      ∧ stringify 3 h = Returns td h
      ∧ returned ((x ← combine entry 1 "+" 2; y ← combine entry x "~" 3;
                   stringify y) h)
        = Some (ta +:+ " " +:+ "+" +:+ " " +:+ tb +:+ " " +:+ "~" +:+ " " +:+ td)
      ∧ returned ((x ← combine entry 2 "~" 3; y ← combine entry 1 "+" x;
                   stringify y) h)
        = Some (ta +:+ " " +:+ "+" +:+ " " +:+ tb +:+ " " +:+ "~" +:+ " " +:+ td).
Proof.
  intros sa sb sd h.
  split; [reflexivity|]. split; [reflexivity|]. split; [reflexivity|].
  split; [reflexivity|].
  exact (combine_nesting_flat h 1 2 3 sa sb sd "+" "~"
           eq_refl eq_refl eq_refl eq_refl).
Defined.

(** X9: [combine] copies the parts of its receiver, so the object it
    returns is checked as the receiver is: an append on it throws the
    same error, or returns, exactly as the same append on the receiver
    does. *)
Theorem combine_keeps_checks (h : heap) (this left right : loc)
    (s sl sr : SelectorState) (c : string) (k : kind) (value : string) :
  h !! this = Some s → h !! left = Some sl → h !! right = Some sr →
  ∃ r h', combine this left c right h = Returns r h'
    ∧ thrown (append k r value h') = thrown (append k this value h)
    ∧ (is_Some (returned (append k r value h'))
       ↔ is_Some (returned (append k this value h))).
Proof.
  intros Hthis Hl Hr. do 2 eexists.
  split; [by rewrite (combine_run _ _ _ _ _ _ _ _ Hthis Hl Hr)|].
  rewrite (append_run _ _ _ _ _ (list_lookup_middle h [] _ _ eq_refl)).
  rewrite (append_run _ _ _ _ _ Hthis), guard_set_item.
  destruct (guard k s); simpl; rewrite ?is_Some_alt; done.
Qed.

Lemma combine_keeps_checks_witness :
  let s := mkState (Some "x") None None None None None None in
  let h := [builder; s] in
  h !! 1 = Some s ∧ h !! entry = Some builder
  ∧ ∃ r h', combine 1 entry ">" entry h = Returns r h'
      ∧ thrown (append Element r "y" h') = thrown (append Element 1 "y" h)
      ∧ (is_Some (returned (append Element r "y" h'))
         ↔ is_Some (returned (append Element 1 "y" h))).
Proof.
  intros s h. split; [reflexivity|]. split; [reflexivity|].
  exact (combine_keeps_checks h 1 entry entry s builder builder ">" Element "y"
           eq_refl eq_refl eq_refl).
Defined.

(** ** Invariants of the heap *)

Lemma tidy_builder : tidy builder.
Proof. intros p _. left. by destruct p. Qed.

Lemma tidy_set (p : prop) (v : string) (s : SelectorState) :
  tidy s → (p ≠ El → truthy (Some v) = true) → tidy (set p v s).
Proof.
  intros Hs Hv q Hq. destruct (decide (q = p)) as [->|Hne].
  - right. rewrite get_set_eq. by apply Hv.
  - rewrite get_set_ne by done. by apply Hs.
Qed.

Lemma tidy_after_append (k : kind) (value : string) (s : SelectorState) :
  tidy s → tidy (after_append k value s).
Proof.
  intros Hs. apply tidy_set; [done|]. intros Hk.
  apply truthy_appended. destruct k; try done.
Qed.

(** X10: an invariant of the heap.  If in every allocated object each
    property other than [el] is either unset or a non-empty string (as on
    the builder object), the same holds after every append and every
    combine that returns: only the element part can ever be set and
    empty. *)
Theorem tidy_heap_preserved (h : heap) (this : loc) (s : SelectorState) :
  h !! this = Some s → Forall tidy h →
  (∀ k value r h', append k this value h = Returns r h' → Forall tidy h')
  ∧ (∀ left c right sl sr r h',
       h !! left = Some sl → h !! right = Some sr →
       combine this left c right h = Returns r h' → Forall tidy h').
Proof.
  intros Hthis Hh.
  assert (Hs : tidy s) by (by eapply (proj1 (Forall_lookup tidy h))).
  split.
  - intros k value r h' Hrun.
    destruct (append_returns _ _ _ _ _ _ _ Hthis Hrun) as (_ & _ & ->).
    apply Forall_app. split; [done|]. apply Forall_singleton.
    by apply tidy_after_append.
  - intros left c right sl sr r h' Hl Hr.
    assert (Hnew : tidy (set Item (appended (item s)
                                     (joined (render sl) c (render sr))) s)).
    { apply tidy_set; [done|]. intros _.
      apply truthy_appended, truthy_joined. }
    rewrite (combine_run _ _ _ _ _ _ _ _ Hthis Hl Hr). intros [= _ <-].
    apply Forall_app. split; [done|]. by apply Forall_singleton.
Qed.

Lemma tidy_heap_preserved_witness :
  heap0 !! entry = Some builder ∧ Forall tidy heap0
  ∧ Forall tidy [builder; after_append Class "" builder].
Proof.
  assert (H0 : Forall tidy heap0)
    by (apply Forall_singleton, tidy_builder).
  split; [reflexivity|]. split; [exact H0|].
  exact (proj1 (tidy_heap_preserved heap0 entry builder eq_refl H0)
           Class "" 1 _ eq_refl).
Defined.

(** X11: a chain of appends never gets stuck and never touches what was
    allocated before it: the heap it leaves is the heap it found followed
    by one new object per call when it returns, and by fewer new objects
    than calls (those of the calls before the failing one) when it
    throws. *)
Theorem chain_allocates_per_call (ops : list (kind * string)) :
  ∀ (h : heap) (this : loc) (s : SelectorState),
    h !! this = Some s →
    appends ops this h ≠ Stuck
    ∧ (∀ r h', appends ops this h = Returns r h' →
         ∃ new, h' = h ++ new ∧ length new = length ops)
    ∧ (∀ e h', appends ops this h = Throws e h' →
         ∃ new, h' = h ++ new ∧ length new < length ops).
Proof.
  induction ops as [|[k value] ops IH]; intros h this s Hthis; simpl.
  - split; [done|]. split.
    + intros r h' [= _ <-]. exists []. by rewrite app_nil_r.
    + intros e h' [=].
  - unfold mbind, M_bind. rewrite (append_run _ _ _ _ _ Hthis).
    destruct (guard k s) as [e0|].
    + split; [done|]. split; [done|]. intros e h' [= _ <-].
      exists []. rewrite app_nil_r. split; [done|]. simpl. lia.
    + fold (after_append k value s).
      destruct (IH (h ++ [after_append k value s]) (length h) _
                  (list_lookup_middle h [] _ _ eq_refl))
        as (Hstuck & Hret & Hthr).
      split; [done|]. split.
      * intros r h' Hrun. destruct (Hret _ _ Hrun) as (new & -> & Hlen).
        exists (after_append k value s :: new).
        rewrite <- app_assoc. split; [done|]. simpl. lia.
      * intros e h' Hrun. destruct (Hthr _ _ Hrun) as (new & -> & Hlen).
        exists (after_append k value s :: new).
        rewrite <- app_assoc. split; [done|]. simpl. lia.
Qed.

Lemma chain_allocates_per_call_witness :
  let ops := [(Id, "x"); (Class, "y"); (Id, "z")] in
  heap0 !! entry = Some builder
  ∧ appends ops entry heap0
    = Throws DuplicateSelectorPartError
        (heap0 ++ [after_append Id "x" builder;
                   after_append Class "y" (after_append Id "x" builder)])
  ∧ ∃ new,
      heap0 ++ [after_append Id "x" builder;
                after_append Class "y" (after_append Id "x" builder)]
      = heap0 ++ new
      ∧ length new < length ops.
Proof.
  intros ops. split; [reflexivity|]. split; [reflexivity|].
  exact (proj2 (proj2 (chain_allocates_per_call ops heap0 entry builder eq_refl))
           _ _ eq_refl).
Defined.

(** ** Texts do not change *)

Lemma appends_prefix (ops : list (kind * string)) :
  ∀ (h h' : heap) (this : loc) (s : SelectorState),
    h !! this = Some s →
    (∃ r, appends ops this h = Returns r h')
    ∨ (∃ e, appends ops this h = Throws e h') →
    ∃ new, h' = h ++ new.
Proof.
  induction ops as [|[k value] ops IH]; intros h h' this s Hthis; simpl.
  - intros [[r [= _ <-]]|[e [=]]]. exists []. by rewrite app_nil_r.
  - unfold mbind, M_bind. rewrite (append_run _ _ _ _ _ Hthis).
    destruct (guard k s) as [e0|].
    + intros [[r [=]]|[e [= _ <-]]]. exists []. by rewrite app_nil_r.
    + intros Hrun.
      destruct (IH _ h' _ _ (list_lookup_middle h [] _ _ eq_refl) Hrun)
        as (new & ->).
      eexists. by rewrite <- app_assoc.
Qed.

Lemma stringify_extended (h new : heap) (l : loc) (x : SelectorState) :
  h !! l = Some x →
  returned (stringify l (h ++ new)) = returned (stringify l h).
Proof.
  intros Hl. rewrite (stringify_run _ _ _ Hl).
  rewrite (stringify_run (h ++ new) l x); [done|].
  rewrite lookup_app_l; [done|]. by eapply lookup_lt_Some.
Qed.

(** X13: the text of a selector never changes once it is built.  For
    every allocated object, [stringify()] returns the same text after
    any chain of appends on any object, whether the chain returns or
    throws, and after any combine, as it did before. *)
Theorem text_is_stable (h : heap) (this l : loc) (s x : SelectorState) :
  h !! this = Some s → h !! l = Some x →
  (∀ ops r h', appends ops this h = Returns r h' →
     returned (stringify l h') = returned (stringify l h))
  ∧ (∀ ops e h', appends ops this h = Throws e h' →
       returned (stringify l h') = returned (stringify l h))
  ∧ (∀ left c right sl sr r h',
       h !! left = Some sl → h !! right = Some sr →
       combine this left c right h = Returns r h' →
       returned (stringify l h') = returned (stringify l h)).
Proof.
  intros Hthis Hl. split; [|split].
  - intros ops r h' Hrun.
    destruct (appends_prefix ops h h' this s Hthis) as (new & ->); [by eauto|].
    by eapply stringify_extended.
  - intros ops e h' Hrun.
    destruct (appends_prefix ops h h' this s Hthis) as (new & ->); [by eauto|].
    by eapply stringify_extended.
  - intros left c right sl sr r h' Hleft Hright.
    rewrite (combine_run _ _ _ _ _ _ _ _ Hthis Hleft Hright).
    intros [= _ <-]. by eapply stringify_extended.
Qed.

Lemma text_is_stable_witness :
  let base := mkState (Some "a") None None None None None None in
  let h := [builder; base] in
  let ops := [(Id, "x"); (Class, "y")] in
  h !! 1 = Some base
  ∧ ∃ r h', appends ops 1 h = Returns r h'
      ∧ returned (stringify 1 h') = returned (stringify 1 h).
Proof.
  intros base h ops. split; [reflexivity|]. do 2 eexists.
  split; [reflexivity|].
  exact (proj1 (text_is_stable h 1 1 base base eq_refl eq_refl)
           ops _ _ eq_refl).
Defined.
